(** * fileData.go: a file-metadata chaincode over a ledger store

    A shallow embedding of [src/fileData.go] (package [main]): the three
    handlers [initFile], [deleteFile], [queryfile] that [Invoke] dispatches
    to, and the query materialisation
    [constructQueryResponseFromIterator].

    Go strings and [[]byte] values are byte sequences; both are [string]
    here (a list of 8-bit characters).  The ledger seen through the stub is
    a finite map from keys to values; a [PutState] or [DelState] the store
    accepts takes effect at once, one it rejects changes nothing.  A log
    keeps the stub calls in order.  Everything the file imports (the
    shim's stub, [encoding/json], [strings]) is a field of [Env].  Output
    on the console ([fmt.Println], [fmt.Printf]) is left out. *)

From Stdlib Require Import String Ascii Bool Arith Lia.
From stdpp Require Import base option list strings gmap.

Local Open Scope string_scope.

(** ** Bytes and literals *)

(** The double-quote character (code 34), escaped inside Go literals. *)
Definition dq : string := String "034"%char EmptyString.

(** The backslash character. *)
Definition bs : string := String "092"%char EmptyString.

(** [[]byte{0x00}], the sentinel stored under an index key (line 97). *)
Definition nul : string := String "000"%char EmptyString.

(** [len(s)] of a Go string. *)
Definition len (s : string) : nat := String.length s.

(** Go's [error] values are carried by their [Error()] text. *)
Definition error := string.

(** A Go result pair [(v, err)] with [err == nil] or [err != nil]. *)
Inductive result (A : Type) : Type :=
| Ok (a : A)
| Err (e : error).
Arguments Ok {A} a.
Arguments Err {A} e.

(** ** Data model *)

(** [type FileDetails struct] (lines 16-20). *)
Record FileDetails : Type := mkFileDetails {
  FileName : string;
  FileHash : string;
  FileUrl : string
}.

(** [pb.Response]: a status, a message and a payload.  [shim.Success] sets
    status 200 and the payload, [shim.Error] status 500 and the message. *)
Record Response : Type := mkResponse {
  Status : nat;
  Message : string;
  Payload : option string
}.

Definition shim_OK : nat := 200.
Definition shim_ERROR : nat := 500.

Definition shim_Success (payload : option string) : Response :=
  {| Status := shim_OK; Message := EmptyString; Payload := payload |}.

Definition shim_Error (msg : string) : Response :=
  {| Status := shim_ERROR; Message := msg; Payload := None |}.

(** One element of a query result, [queryresult.KV]. *)
Record KV : Type := mkKV { Key : string; Value : string }.

(** [shim.StateQueryIteratorInterface]: a forward-only finite cursor.
    [HasNext()] holds while the list is non-empty; [Next()] removes the
    head, which is either a pair or the error of a failed advance. *)
Definition StateQueryIterator : Type := list (result KV).

(** ** The stub and its call log *)

(** Calls made on the stub, in the order they were made. *)
Inductive Call : Type :=
| CGetState (key : string)
| CPutState (key value : string)
| CDelState (key : string)
| CCreateCompositeKey (objectType : string) (attributes : list string)
| CGetQueryResult (query : string)
| CClose.

(** The ledger as the stub shows it, and the log of stub calls. *)
Record World : Type := mkWorld {
  state : gmap string string;
  calls : list Call
}.

Definition log (c : Call) (w : World) : World :=
  {| state := state w; calls := calls w ++ [c] |}.

(** What the file imports.  The three [_fault] fields say whether the
    store rejects a call, given the world the call is made in; [None]
    means the call goes through. *)
Record Env : Type := mkEnv {
  strings_ToLower : string -> string;
  json_Marshal : FileDetails -> result string;
  json_Unmarshal : string -> result FileDetails;
  get_fault : World -> string -> option error;
  put_fault : World -> string -> string -> option error;
  del_fault : World -> string -> option error;
  createCompositeKey : string -> list string -> result string;
  getQueryResult : World -> string -> result StateQueryIterator
}.

(** ** Execution monad: state passing plus run-time panics *)

Inductive Outcome (A : Type) : Type :=
| Done (a : A)
| Panic (msg : string).
Arguments Done {A} a.
Arguments Panic {A} msg.

Definition Exec (A : Type) : Type := World -> Outcome A * World.

Definition ret {A} (a : A) : Exec A := fun w => (Done a, w).

Definition bind {A B} (m : Exec A) (k : A -> Exec B) : Exec B :=
  fun w =>
    match m w with
    | (Done a, w') => k a w'
    | (Panic msg, w') => (Panic msg, w')
    end.

Definition panic {A} (msg : string) : Exec A := fun w => (Panic msg, w).

Notation "'call' x <- m ; k" := (bind m (fun x => k))
  (at level 10, x name, m at level 100, k at level 200,
   format "'[v' 'call'  x  <-  m ; '/' k ']'").

(** [a[i]] on a slice: a run-time panic when [i] is out of range. *)
Definition index (a : list string) (i : nat) : Exec string :=
  match a !! i with
  | Some x => ret x
  | None => panic "runtime error: index out of range"
  end.

Section Chaincode.

Variable E : Env.

(** ** Stub operations *)

(** [stub.GetState(key)]: [Ok None] is Go's [(nil, nil)], an absent key. *)
Definition GetState (key : string) : Exec (result (option string)) :=
  fun w =>
    let r := match get_fault E w key with
             | Some e => Err e
             | None => Ok (state w !! key)
             end in
    (Done r, log (CGetState key) w).

(** [stub.PutState(key, value)]: the returned [error], [None] for [nil]. *)
Definition PutState (key value : string) : Exec (option error) :=
  fun w =>
    match put_fault E w key value with
    | Some e => (Done (Some e), log (CPutState key value) w)
    | None =>
        (Done None,
         log (CPutState key value)
           {| state := <[key := value]> (state w); calls := calls w |})
    end.

(** [stub.DelState(key)]. *)
Definition DelState (key : string) : Exec (option error) :=
  fun w =>
    match del_fault E w key with
    | Some e => (Done (Some e), log (CDelState key) w)
    | None =>
        (Done None,
         log (CDelState key)
           {| state := delete key (state w); calls := calls w |})
    end.

(** [stub.CreateCompositeKey(objectType, attributes)]. *)
Definition CreateCompositeKey (objectType : string) (attributes : list string)
  : Exec (result string) :=
  fun w => (Done (createCompositeKey E objectType attributes),
            log (CCreateCompositeKey objectType attributes) w).

(** [stub.GetQueryResult(query)]. *)
Definition GetQueryResult (query : string) : Exec (result StateQueryIterator) :=
  fun w => (Done (getQueryResult E w query), log (CGetQueryResult query) w).

(** [resultsIterator.Close()]. *)
Definition Close : Exec unit := fun w => (Done tt, log CClose w).

(** ** [initFile] (lines 47-104) *)

(** Lines 69-102: the uniqueness check, the primary write and the index
    write, run on the three values lines 65-67 compute.  The value of the
    index [PutState] on line 98 is discarded by the source. *)
Definition initFile_store (fileName fileHash fileUrl : string) : Exec Response :=
  call r <- GetState fileName;
  match r with
  | Err err => ret (shim_Error ("Failed to get file: " +:+ err))
  | Ok (Some _) => ret (shim_Error ("This file is  already exists: " +:+ fileName))
  | Ok None =>
      let filestore := mkFileDetails fileName fileHash fileUrl in
      match json_Marshal E filestore with
      | Err err => ret (shim_Error err)
      | Ok fileJSONasBytes =>
          call err <- PutState fileName fileJSONasBytes;
          match err with
          | Some err => ret (shim_Error err)
          | None =>
              let indexName := "hash~name" in
              call k <- CreateCompositeKey indexName
                          [FileHash filestore; FileName filestore];
              match k with
              | Err err => ret (shim_Error err)
              | Ok fileHashNameIndexKey =>
                  let value := nul in
                  call _ <- PutState fileHashNameIndexKey value;
                  ret (shim_Success None)
              end
          end
      end
  end.

(** Lines 47-67, then [initFile_store].  Line 67 reads [args[3]]. *)
Definition initFile (args : list string) : Exec Response :=
  if negb (length args =? 3)%nat then
    ret (shim_Error "Incorrect number of arguments. Expecting 4")
  else
    call a0 <- index args 0;
    if (len a0 <=? 0)%nat then ret (shim_Error "1st argument must be a non-empty string")
    else
      call a1 <- index args 1;
      if (len a1 <=? 0)%nat then ret (shim_Error "2nd argument must be a non-empty string")
      else
        call a2 <- index args 2;
        if (len a2 <=? 0)%nat then ret (shim_Error "3rd argument must be a non-empty string")
        else
          call fileName <- index args 0;
          call a1 <- index args 1;
          let fileHash := strings_ToLower E a1 in
          call a3 <- index args 3;
          let fileUrl := strings_ToLower E a3 in
          initFile_store fileName fileHash fileUrl.

(** ** [deleteFile] (lines 109-151) *)

Definition jsonError (what filename : string) : string :=
  "{" +:+ dq +:+ "Error" +:+ dq +:+ ":" +:+ dq +:+ what +:+ filename +:+ dq +:+ "}".

Definition deleteFile (args : list string) : Exec Response :=
  if negb (length args =? 1)%nat then
    ret (shim_Error "Incorrect number of arguments. Expecting 1")
  else
    call filename <- index args 0;
    call r <- GetState filename;
    match r with
    | Err _ => ret (shim_Error (jsonError "Failed to get state for " filename))
    | Ok None => ret (shim_Error (jsonError "Marble does not exist: " filename))
    | Ok (Some valAsbytes) =>
        match json_Unmarshal E valAsbytes with
        | Err _ => ret (shim_Error (jsonError "Failed to decode JSON of: " filename))
        | Ok fileJSON =>
            call err <- DelState filename;
            match err with
            | Some err => ret (shim_Error ("Failed to delete state:" +:+ err))
            | None =>
                let indexName := "Hash~name" in
                call k <- CreateCompositeKey indexName
                            [FileHash fileJSON; FileName fileJSON];
                match k with
                | Err err => ret (shim_Error err)
                | Ok colorNameIndexKey =>
                    call err <- DelState colorNameIndexKey;
                    match err with
                    | Some err => ret (shim_Error ("Failed to delete state:" +:+ err))
                    | None => ret (shim_Success None)
                    end
                end
            end
        end
    end.

(** ** The query path (lines 160-242) *)

(** The loop of lines 219-238 and the closing bracket of line 239, on the
    buffer and flag the loop carries: one iteration per cursor element. *)
Fixpoint writeMembers (resultsIterator : StateQueryIterator) (buffer : string)
    (bArrayMemberAlreadyWritten : bool) : result string :=
  match resultsIterator with
  | [] => Ok (buffer +:+ "]")
  | next :: resultsIterator =>
      match next with
      | Err err => Err err
      | Ok queryResponse =>
          let buffer :=
            if bArrayMemberAlreadyWritten then buffer +:+ "," else buffer in
          let buffer := buffer +:+ ("{" +:+ dq +:+ "Key" +:+ dq +:+ ":") in
          let buffer := buffer +:+ dq in
          let buffer := buffer +:+ Key queryResponse in
          let buffer := buffer +:+ dq in
          let buffer := buffer +:+ (", " +:+ dq +:+ "Record" +:+ dq +:+ ":") in
          let buffer := buffer +:+ Value queryResponse in
          let buffer := buffer +:+ "}" in
          writeMembers resultsIterator buffer true
      end
  end.

Definition constructQueryResponseFromIterator
    (resultsIterator : StateQueryIterator) : result string :=
  let buffer := EmptyString in
  let buffer := buffer +:+ "[" in
  writeMembers resultsIterator buffer false.

(** The deferred [Close] of line 197 runs on both exits that follow it. *)
Definition getQueryResultForQueryString (queryString : string)
  : Exec (result string) :=
  call r <- GetQueryResult queryString;
  match r with
  | Err err => ret (Err err)
  | Ok resultsIterator =>
      match constructQueryResponseFromIterator resultsIterator with
      | Err err => call _ <- Close; ret (Err err)
      | Ok buffer => call _ <- Close; ret (Ok buffer)
      end
  end.

Definition queryfile (args : list string) : Exec Response :=
  if (length args <? 1)%nat then
    ret (shim_Error "Incorrect number of arguments. Expecting 1")
  else
    call queryString <- index args 0;
    call r <- getQueryResultForQueryString queryString;
    match r with
    | Err err => ret (shim_Error err)
    | Ok queryResults => ret (shim_Success (Some queryResults))
    end.

(** ** [Init] (lines 25-27) and [Invoke] (lines 29-42) *)

Definition Init : Exec Response := ret (shim_Success None).

Definition Invoke (function : string) (args : list string) : Exec Response :=
  if (function =? "initFile")%string then initFile args
  else if (function =? "deletefile")%string then deleteFile args
  else if (function =? "queryfile")%string then queryfile args
  else ret (shim_Error "Received unknown function invocation").

End Chaincode.

(** ** A concrete environment

    An instance of [Env] to run the handlers on: a store that rejects
    nothing, the shim's composite keys (a U+0000 namespace byte, then the
    object type and each attribute followed by U+0000; a part that holds
    U+0000 is refused), ASCII lower-casing, and the JSON object of a
    [FileDetails] whose fields hold only characters JSON leaves
    unescaped. *)

Definition lowerAscii (c : ascii) : ascii :=
  let n := nat_of_ascii c in
  if ((65 <=? n) && (n <=? 90))%nat then ascii_of_nat (n + 32) else c.

Fixpoint toLower (s : string) : string :=
  match s with
  | EmptyString => EmptyString
  | String c s => String (lowerAscii c) (toLower s)
  end.

Fixpoint hasNul (s : string) : bool :=
  match s with
  | EmptyString => false
  | String c s => (nat_of_ascii c =? 0)%nat || hasNul s
  end.

Fixpoint appendAttributes (ck : string) (attributes : list string) : result string :=
  match attributes with
  | [] => Ok ck
  | att :: attributes =>
      if hasNul att then Err "U+0000 in composite key"
      else appendAttributes (ck +:+ att +:+ nul) attributes
  end.

Definition shimCompositeKey (objectType : string) (attributes : list string)
  : result string :=
  if hasNul objectType then Err "U+0000 in composite key"
  else appendAttributes (nul +:+ objectType +:+ nul) attributes.

Definition field (name value : string) : string :=
  dq +:+ name +:+ dq +:+ ":" +:+ dq +:+ value +:+ dq.

Definition marshalFlat (f : FileDetails) : result string :=
  Ok ("{" +:+ field "FileName" (FileName f) +:+ "," +:+
      field "FileHash" (FileHash f) +:+ "," +:+
      field "FileUrl" (FileUrl f) +:+ "}").

(** [expect p s]: the rest of [s] after its prefix [p]. *)
Fixpoint expect (p s : string) : option string :=
  match p, s with
  | EmptyString, _ => Some s
  | String a p, String b s => if Ascii.eqb a b then expect p s else None
  | String _ _, EmptyString => None
  end.

(** The characters up to the next double quote, and what follows it; a
    backslash is refused. *)
Fixpoint untilQuote (s : string) : option (string * string) :=
  match s with
  | EmptyString => None
  | String c s =>
      if Ascii.eqb c "034"%char then Some (EmptyString, s)
      else if Ascii.eqb c "092"%char then None
      else match untilQuote s with
           | Some (v, rest) => Some (String c v, rest)
           | None => None
           end
  end.

Definition readField (name s : string) : option (string * string) :=
  match expect (dq +:+ name +:+ dq +:+ ":" +:+ dq) s with
  | Some s => untilQuote s
  | None => None
  end.

Definition unmarshalFlat (data : string) : result FileDetails :=
  let bad := Err "invalid character" in
  match expect "{" data with
  | None => bad
  | Some s =>
      match readField "FileName" s with
      | None => bad
      | Some (n, s) =>
          match expect "," s with
          | None => bad
          | Some s =>
              match readField "FileHash" s with
              | None => bad
              | Some (h, s) =>
                  match expect "," s with
                  | None => bad
                  | Some s =>
                      match readField "FileUrl" s with
                      | None => bad
                      | Some (u, s) =>
                          if (s =? "}")%string then Ok (mkFileDetails n h u)
                          else bad
                      end
                  end
              end
          end
      end
  end.

Definition noFault : Env := {|
  strings_ToLower := toLower;
  json_Marshal := marshalFlat;
  json_Unmarshal := unmarshalFlat;
  get_fault := fun _ _ => None;
  put_fault := fun _ _ _ => None;
  del_fault := fun _ _ => None;
  createCompositeKey := shimCompositeKey;
  getQueryResult := fun _ _ => Ok []
|}.

Definition emptyWorld : World := {| state := ∅; calls := [] |}.

(** ** Well-formed JSON (RFC 8259)

    The grammar the query result is meant to satisfy, as a pushdown
    recogniser that reads one character at a time: the control state says
    what may come next, the stack which arrays and objects are open. *)

Inductive Frame : Type := InArray | InObject.

Inductive JState : Type :=
| JTop                         (* before the array's opening bracket *)
| JValue                       (* a value must start *)
| JValueOrClose                (* after an opening bracket *)
| JNameOrClose                 (* after an opening brace *)
| JName                        (* after a comma inside an object *)
| JColon                       (* after a member name *)
| JAfter                       (* after a complete value *)
| JString (name : bool)        (* inside a string *)
| JEscape (name : bool)        (* after a backslash inside a string *)
| JHex (name : bool) (n : nat) (* inside a u-escape, n + 1 digits to go *)
| JLiteral (rest : string)     (* inside true, false or null *)
| JMinus | JZero | JInt | JDot | JFrac | JExp | JExpSign | JExpDigits.

Definition isChar (c : ascii) (s : string) : bool :=
  match s with
  | String d EmptyString => Ascii.eqb c d
  | _ => false
  end.

Fixpoint oneOf (c : ascii) (s : string) : bool :=
  match s with
  | EmptyString => false
  | String d s => Ascii.eqb c d || oneOf c s
  end.

Definition isWs (c : ascii) : bool :=
  let n := nat_of_ascii c in
  ((n =? 32) || (n =? 9) || (n =? 10) || (n =? 13))%nat.

Definition isDigit (c : ascii) : bool := oneOf c "0123456789".
Definition isDigit19 (c : ascii) : bool := oneOf c "123456789".
Definition isHexDigit (c : ascii) : bool := oneOf c "0123456789abcdefABCDEF".

Definition JConf : Type := JState * list Frame.

(** A character that opens a value. *)
Definition startValue (stack : list Frame) (c : ascii) : option JConf :=
  if isChar c "[" then Some (JValueOrClose, InArray :: stack)
  else if isChar c "{" then Some (JNameOrClose, InObject :: stack)
  else if isChar c dq then Some (JString false, stack)
  else if isChar c "-" then Some (JMinus, stack)
  else if isChar c "0" then Some (JZero, stack)
  else if isDigit19 c then Some (JInt, stack)
  else if isChar c "t" then Some (JLiteral "rue", stack)
  else if isChar c "f" then Some (JLiteral "alse", stack)
  else if isChar c "n" then Some (JLiteral "ull", stack)
  else None.

(** A character that follows a complete value. *)
Definition afterValue (stack : list Frame) (c : ascii) : option JConf :=
  if isWs c then Some (JAfter, stack)
  else
    match stack with
    | [] => None
    | InArray :: below =>
        if isChar c "," then Some (JValue, stack)
        else if isChar c "]" then Some (JAfter, below)
        else None
    | InObject :: below =>
        if isChar c "," then Some (JName, stack)
        else if isChar c "}" then Some (JAfter, below)
        else None
    end.

Definition jstep (st : JState) (stack : list Frame) (c : ascii) : option JConf :=
  match st with
  | JTop =>
      if isWs c then Some (JTop, stack)
      else if isChar c "[" then Some (JValueOrClose, InArray :: stack)
      else None
  | JValue => if isWs c then Some (JValue, stack) else startValue stack c
  | JValueOrClose =>
      if isWs c then Some (JValueOrClose, stack)
      else if isChar c "]" then
        match stack with
        | InArray :: below => Some (JAfter, below)
        | _ => None
        end
      else startValue stack c
  | JNameOrClose =>
      if isWs c then Some (JNameOrClose, stack)
      else if isChar c "}" then
        match stack with
        | InObject :: below => Some (JAfter, below)
        | _ => None
        end
      else if isChar c dq then Some (JString true, stack)
      else None
  | JName =>
      if isWs c then Some (JName, stack)
      else if isChar c dq then Some (JString true, stack)
      else None
  | JColon =>
      if isWs c then Some (JColon, stack)
      else if isChar c ":" then Some (JValue, stack)
      else None
  | JAfter => afterValue stack c
  | JString name =>
      if isChar c dq then Some (if name then JColon else JAfter, stack)
      else if isChar c bs then Some (JEscape name, stack)
      else if (nat_of_ascii c <? 32)%nat then None
      else Some (JString name, stack)
  | JEscape name =>
      if isChar c dq || isChar c bs || oneOf c "/bfnrt" then Some (JString name, stack)
      else if isChar c "u" then Some (JHex name 3, stack)
      else None
  | JHex name n =>
      if isHexDigit c then
        match n with
        | O => Some (JString name, stack)
        | S n => Some (JHex name n, stack)
        end
      else None
  | JLiteral rest =>
      match rest with
      | String d EmptyString => if Ascii.eqb c d then Some (JAfter, stack) else None
      | String d rest => if Ascii.eqb c d then Some (JLiteral rest, stack) else None
      | EmptyString => None
      end
  | JMinus =>
      if isChar c "0" then Some (JZero, stack)
      else if isDigit19 c then Some (JInt, stack)
      else None
  | JZero =>
      if isChar c "." then Some (JDot, stack)
      else if oneOf c "eE" then Some (JExp, stack)
      else afterValue stack c
  | JInt =>
      if isDigit c then Some (JInt, stack)
      else if isChar c "." then Some (JDot, stack)
      else if oneOf c "eE" then Some (JExp, stack)
      else afterValue stack c
  | JDot => if isDigit c then Some (JFrac, stack) else None
  | JFrac =>
      if isDigit c then Some (JFrac, stack)
      else if oneOf c "eE" then Some (JExp, stack)
      else afterValue stack c
  | JExp =>
      if oneOf c "+-" then Some (JExpSign, stack)
      else if isDigit c then Some (JExpDigits, stack)
      else None
  | JExpSign => if isDigit c then Some (JExpDigits, stack) else None
  | JExpDigits =>
      if isDigit c then Some (JExpDigits, stack)
      else afterValue stack c
  end.

Fixpoint jscan (st : JState) (stack : list Frame) (s : string) : bool :=
  match s with
  | EmptyString =>
      match st, stack with
      | JAfter, [] => true
      | _, _ => false
      end
  | String c s =>
      match jstep st stack c with
      | Some (st, stack) => jscan st stack s
      | None => false
      end
  end.

(** A JSON text whose value is an array. *)
Definition wellFormedJSONArray (s : string) : bool := jscan JTop [] s.

(** [contains c s]: the character [c] occurs in [s]. *)
Definition contains (c : string) (s : string) : bool :=
  match c with
  | String d _ => oneOf d s
  | EmptyString => false
  end.

(** ** The shape of a materialised result *)

(** One array member as lines 228-236 write it. *)
Definition member (kv : KV) : string :=
  "{" +:+ dq +:+ "Key" +:+ dq +:+ ":" +:+ dq +:+ Key kv +:+ dq +:+
  ", " +:+ dq +:+ "Record" +:+ dq +:+ ":" +:+ Value kv +:+ "}".

(** The members of [l], each but the very first preceded by a comma. *)
Fixpoint membersFrom (written : bool) (l : list KV) : string :=
  match l with
  | [] => EmptyString
  | kv :: l =>
      (if written then "," else EmptyString) +:+ member kv +:+ membersFrom true l
  end.

(** Worlds in which the secondary index of [initFile] is exercised. *)
Definition indexKey : string :=
  nul +:+ "hash~name" +:+ nul +:+ "abc" +:+ nul +:+ "f1" +:+ nul.

Definition recordF1 : string :=
  "{" +:+ field "FileName" "f1" +:+ "," +:+ field "FileHash" "abc" +:+ "," +:+
  field "FileUrl" "url" +:+ "}".

(** The world lines 69-102 leave behind for the file f1. *)
Definition stored : World :=
  snd (initFile_store noFault "f1" "abc" "url" emptyWorld).

(** A store that rejects every write under a composite key. *)
Definition indexPutRejected : Env := {|
  strings_ToLower := toLower;
  json_Marshal := marshalFlat;
  json_Unmarshal := unmarshalFlat;
  get_fault := fun _ _ => None;
  put_fault := fun _ key _ =>
    match expect nul key with
    | Some _ => Some "write rejected"
    | None => None
    end;
  del_fault := fun _ _ => None;
  createCompositeKey := shimCompositeKey;
  getQueryResult := fun _ _ => Ok []
|}.

(** A store that rejects every deletion under a composite key. *)
Definition indexDelRejected : Env := {|
  strings_ToLower := toLower;
  json_Marshal := marshalFlat;
  json_Unmarshal := unmarshalFlat;
  get_fault := fun _ _ => None;
  put_fault := fun _ _ _ => None;
  del_fault := fun _ key =>
    match expect nul key with
    | Some _ => Some "delete rejected"
    | None => None
    end;
  createCompositeKey := shimCompositeKey;
  getQueryResult := fun _ _ => Ok []
|}.

(** ** Predicates used in the statements *)

(** The calls of one [deleteFile]: nothing, the read alone, or the read
    followed at once by the deletion of the primary key. *)
Definition primaryFirst (trace : list Call) : Prop :=
  trace = [] \/
  exists name, trace = [CGetState name] \/
    exists rest, trace = CGetState name :: CDelState name :: rest.

(** The member the result-shape property writes: no space before the
    record's name. *)
Definition specMember (kv : KV) : string :=
  "{" +:+ dq +:+ "Key" +:+ dq +:+ ":" +:+ dq +:+ Key kv +:+ dq +:+
  "," +:+ dq +:+ "Record" +:+ dq +:+ ":" +:+ Value kv +:+ "}".

(** Characters that neither end nor escape a JSON string and are not
    control characters. *)
Fixpoint plain (s : string) : bool :=
  match s with
  | EmptyString => true
  | String c s =>
      negb (isChar c dq) && negb (isChar c bs) &&
      negb (nat_of_ascii c <? 32)%nat && plain s
  end.

(** A value the recogniser reads as one complete JSON value whatever
    follows it: an object, an array, a string or a literal. *)
Definition selfDelimited (v : string) : Prop :=
  forall (stack : list Frame) (rest : string),
    jscan JValue stack (v +:+ rest) = jscan JAfter stack rest.

(** The calls of one [queryfile]. *)
Definition queryTrace (trace : list Call) : Prop :=
  trace = [] \/
  exists q, trace = [CGetQueryResult q] \/ trace = [CGetQueryResult q; CClose].

(** No call of the trace writes a value. *)
Definition isPut (c : Call) : bool :=
  match c with
  | CPutState _ _ => true
  | _ => false
  end.

(** ** More worlds and stores to run the handlers on *)

(** A key that starts with U+0000, as composite keys do. *)
Definition nulName : string := nul +:+ "x".

(** The record of f1 filed under [nulName]. *)
Definition storedUnderNul : World :=
  {| state := {[ nulName := recordF1 ]}; calls := [] |}.

(** Bytes under f1 that are no JSON object. *)
Definition garbled : World :=
  {| state := {[ "f1" := "garbage" ]}; calls := [] |}.

(** A query engine whose cursor yields one pair and then fails. *)
Definition brokenCursor : Env := {|
  strings_ToLower := toLower;
  json_Marshal := marshalFlat;
  json_Unmarshal := unmarshalFlat;
  get_fault := fun _ _ => None;
  put_fault := fun _ _ _ => None;
  del_fault := fun _ _ => None;
  createCompositeKey := shimCompositeKey;
  getQueryResult := fun _ _ =>
    Ok [Ok (mkKV "f1" recordF1); Err "connection lost"; Ok (mkKV "f2" recordF1)]
|}.

(** A query engine that refuses every query. *)
Definition noEngine : Env := {|
  strings_ToLower := toLower;
  json_Marshal := marshalFlat;
  json_Unmarshal := unmarshalFlat;
  get_fault := fun _ _ => None;
  put_fault := fun _ _ _ => None;
  del_fault := fun _ _ => None;
  createCompositeKey := shimCompositeKey;
  getQueryResult := fun _ _ => Err "rich query not supported"
|}.

(** ** Proof steps *)

(** Unfold one run of a handler down to the fault oracles. *)
Ltac run_store :=
  unfold initFile_store, bind, ret, GetState, PutState, CreateCompositeKey;
  unfold log in *; cbn [state calls fst snd] in *.

Ltac run_delete :=
  unfold deleteFile, bind, index, ret, GetState, DelState, CreateCompositeKey;
  unfold log in *; simpl in *.

(** * Properties *)

(** ** Strings *)

Lemma append_String (c : ascii) (s t : string) :
  String c s +:+ t = String c (s +:+ t).
Proof. reflexivity. Qed.

Lemma append_assoc (a b c : string) : (a +:+ b) +:+ c = a +:+ (b +:+ c).
Proof.
  induction a as [|x a IH]; [reflexivity|].
  rewrite !append_String. now rewrite IH.
Qed.

Lemma append_empty_r (a : string) : a +:+ EmptyString = a.
Proof.
  induction a as [|x a IH]; [reflexivity|].
  rewrite append_String. now rewrite IH.
Qed.

(** ** [initFile] *)

(** With three arguments [initFile] gets through the checks of lines
    50-63 only to index the slice at 3 on line 67. *)
Lemma initFile_three_arguments (E : Env) (a0 a1 a2 : string) (w : World) :
  initFile E [a0; a1; a2] w =
    if (len a0 <=? 0)%nat then
      (Done (shim_Error "1st argument must be a non-empty string"), w)
    else if (len a1 <=? 0)%nat then
      (Done (shim_Error "2nd argument must be a non-empty string"), w)
    else if (len a2 <=? 0)%nat then
      (Done (shim_Error "3rd argument must be a non-empty string"), w)
    else (Panic "runtime error: index out of range", w).
Proof.
  unfold initFile, bind, index, ret, panic. simpl.
  destruct (len a0 <=? 0)%nat; [reflexivity|].
  destruct (len a1 <=? 0)%nat; [reflexivity|].
  destruct (len a2 <=? 0)%nat; reflexivity.
Qed.

(** Whatever its arguments, [initFile] leaves the ledger and the call log
    as they were: every path ends before the first stub call. *)
Lemma initFile_never_writes (E : Env) (args : list string) (w : World) :
  snd (initFile E args w) = w.
Proof.
  destruct args as [|a0 [|a1 [|a2 [|a3 rest]]]]; try reflexivity.
  rewrite initFile_three_arguments.
  destruct (len a0 <=? 0)%nat; [reflexivity|].
  destruct (len a1 <=? 0)%nat; [reflexivity|].
  destruct (len a2 <=? 0)%nat; reflexivity.
Qed.

(** From line 69 on, a name that is present is refused and nothing is
    written: the only stub call is the read. *)
Lemma initFile_store_duplicate (E : Env) (fileName fileHash fileUrl v : string)
    (w : World) :
  get_fault E w fileName = None ->
  state w !! fileName = Some v ->
  initFile_store E fileName fileHash fileUrl w =
    (Done (shim_Error ("This file is  already exists: " +:+ fileName)),
     log (CGetState fileName) w).
Proof.
  intros Hf Hv. unfold initFile_store, bind, GetState, ret.
  now rewrite Hf, Hv.
Qed.

(** From line 69 on, the index write's error is dropped: whatever the
    store answers to the second [PutState], the response is a success. *)
Lemma initFile_store_ignores_index_put (E : Env)
    (fileName fileHash fileUrl b k : string) (w : World) :
  get_fault E w fileName = None ->
  state w !! fileName = None ->
  json_Marshal E (mkFileDetails fileName fileHash fileUrl) = Ok b ->
  put_fault E (log (CGetState fileName) w) fileName b = None ->
  createCompositeKey E "hash~name" [fileHash; fileName] = Ok k ->
  fst (initFile_store E fileName fileHash fileUrl w) = Done (shim_Success None).
Proof.
  intros Hg Hn Hm Hp Hk.
  unfold initFile_store, bind, GetState, PutState, CreateCompositeKey, ret.
  rewrite Hg, Hn, Hm, Hp. simpl. rewrite Hk.
  now destruct (put_fault E _ k nul).
Qed.

(** C1 (code defect).  The claim speaks of the record a successful
    three-argument [initFile] stores.  No such call succeeds: for every
    three non-empty arguments the handler panics on line 67, before any
    stub call, and the world is left as it was, so no record with the
    lower-cased hash and url is ever stored. *)
Theorem initFile_never_stores (E : Env) (c0 c1 c2 : ascii)
    (name hash url : string) (w : World) :
  initFile E [String c0 name; String c1 hash; String c2 url] w =
    (Panic "runtime error: index out of range", w).
Proof. now rewrite initFile_three_arguments. Qed.

(** C6 (code defect).  A second [initFile] on a name that is present does
    not get to the uniqueness check of lines 69-76: it panics on line 67,
    so the response is not the duplicate-record error.  (Nothing is
    written and the world is unchanged, as the claim asks.) *)
Theorem initFile_existing_name_panics (E : Env) (c0 c1 c2 : ascii)
    (name hash url v : string) (m : gmap string string) (cs : list Call) :
  let fileName := String c0 name in
  let w := {| state := <[fileName := v]> m; calls := cs |} in
  state w !! fileName = Some v /\
  initFile E [fileName; String c1 hash; String c2 url] w =
    (Panic "runtime error: index out of range", w) /\
  fst (initFile E [fileName; String c1 hash; String c2 url] w) <>
    Done (shim_Error ("This file is  already exists: " +:+ fileName)).
Proof.
  intros fileName w. split; [apply lookup_insert_eq|].
  rewrite initFile_three_arguments. simpl. split; [reflexivity|discriminate].
Qed.

(** C2 (code defect).  [initFile] files the index entry under
    [hash~name] (line 90), [deleteFile] removes it under [Hash~name]
    (line 139).  On the world lines 69-102 leave for f1, holding the
    record and its index entry, [deleteFile] succeeds, removes the record
    and leaves the index entry: the two facts diverge. *)
Theorem deleteFile_leaves_index_entry :
  state stored !! "f1" = Some recordF1 /\
  state stored !! indexKey = Some nul /\
  fst (deleteFile noFault ["f1"] stored) = Done (shim_Success None) /\
  state (snd (deleteFile noFault ["f1"] stored)) !! "f1" = None /\
  state (snd (deleteFile noFault ["f1"] stored)) !! indexKey = Some nul.
Proof. vm_compute. repeat split. Qed.

(** C3 (code defect).  Line 98 drops the error of the index write.  On a
    store that takes the record and rejects the index entry, lines
    69-102 answer with a success; the record is there, the index entry is
    not. *)
Theorem initFile_store_swallows_index_error :
  put_fault indexPutRejected emptyWorld "f1" recordF1 = None /\
  put_fault indexPutRejected emptyWorld indexKey nul = Some "write rejected" /\
  fst (initFile_store indexPutRejected "f1" "abc" "url" emptyWorld) =
    Done (shim_Success None) /\
  state (snd (initFile_store indexPutRejected "f1" "abc" "url" emptyWorld))
    !! "f1" = Some recordF1 /\
  state (snd (initFile_store indexPutRejected "f1" "abc" "url" emptyWorld))
    !! indexKey = None.
Proof. vm_compute. repeat split. Qed.

(** ** [deleteFile] *)

Lemma deleteFile_trace (E : Env) (args : list string) (w : World) :
  exists trace,
    calls (snd (deleteFile E args w)) = (calls w ++ trace)%list /\ primaryFirst trace.
Proof.
  unfold deleteFile.
  destruct args as [|name [|? ?]]; simpl;
    try (exists []; split; [now rewrite app_nil_r | now left]).
  unfold bind, index, ret, GetState, DelState, CreateCompositeKey. simpl.
  destruct (get_fault E w name).
  { exists [CGetState name]. split; [reflexivity|]. right. exists name. now left. }
  destruct (state w !! name) as [v|].
  2:{ exists [CGetState name]. split; [reflexivity|]. right. exists name. now left. }
  destruct (json_Unmarshal E v) as [fd|].
  2:{ exists [CGetState name]. split; [reflexivity|]. right. exists name. now left. }
  destruct (del_fault E _ name); simpl.
  { exists [CGetState name; CDelState name].
    split; [now rewrite <- app_assoc|]. right. exists name. right. now exists []. }
  destruct (createCompositeKey E _ _) as [k|]; simpl.
  2:{ eexists [CGetState name; CDelState name; _].
      split; [now rewrite <- !app_assoc|]. right. exists name. right. now eexists. }
  destruct (del_fault E _ k); simpl;
    (eexists [CGetState name; CDelState name; _; _];
     split; [now rewrite <- !app_assoc|]; right; exists name; right; now eexists).
Qed.

(** C8.  [deleteFile] on a name with no primary entry, the read going
    through, answers with the does-not-exist error; the ledger is what it
    was and the only stub call is the read: no write, no deletion. *)
Theorem deleteFile_missing_record (E : Env) (name : string) (w : World) :
  get_fault E w name = None ->
  state w !! name = None ->
  fst (deleteFile E [name] w) =
    Done (shim_Error (jsonError "Marble does not exist: " name)) /\
  state (snd (deleteFile E [name] w)) = state w /\
  calls (snd (deleteFile E [name] w)) = (calls w ++ [CGetState name])%list.
Proof.
  intros Hf Hn. unfold deleteFile, bind, index, ret, GetState. simpl.
  rewrite Hf, Hn. simpl. repeat split.
Qed.

Lemma deleteFile_missing_record_witness :
  fst (deleteFile noFault ["ghost"] emptyWorld) =
    Done (shim_Error (jsonError "Marble does not exist: " "ghost")) /\
  state (snd (deleteFile noFault ["ghost"] emptyWorld)) = state emptyWorld /\
  calls (snd (deleteFile noFault ["ghost"] emptyWorld)) = [CGetState "ghost"].
Proof.
  exact (deleteFile_missing_record noFault "ghost" emptyWorld eq_refl eq_refl).
Defined.

(** C10.  In every [deleteFile] the calls that follow the read start with
    the deletion of the primary key, so the index is addressed after it.
    When the primary deletion went through and then either the composite
    key cannot be built or the deletion under it is rejected, the
    response is an error, the primary key is absent from the ledger, and
    nothing but at most the rejected index deletion follows the key
    construction: the primary deletion is not undone. *)
Theorem deleteFile_no_rollback (E : Env) (args : list string) (w : World) :
  (exists trace,
     calls (snd (deleteFile E args w)) = (calls w ++ trace)%list /\ primaryFirst trace) /\
  forall (name v : string) (fd : FileDetails),
    let w1 := log (CGetState name) w in
    let w2 := log (CDelState name)
                {| state := delete name (state w1); calls := calls w1 |} in
    let w3 := log (CCreateCompositeKey "Hash~name" [FileHash fd; FileName fd]) w2 in
    args = [name] ->
    get_fault E w name = None ->
    state w !! name = Some v ->
    json_Unmarshal E v = Ok fd ->
    del_fault E w1 name = None ->
    match createCompositeKey E "Hash~name" [FileHash fd; FileName fd] with
    | Err _ => True
    | Ok k => del_fault E w3 k <> None
    end ->
    exists msg rest,
      fst (deleteFile E args w) = Done (shim_Error msg) /\
      state (snd (deleteFile E args w)) !! name = None /\
      calls (snd (deleteFile E args w)) =
        (calls w ++ [CGetState name; CDelState name;
                     CCreateCompositeKey "Hash~name" [FileHash fd; FileName fd]]
                 ++ rest)%list /\
      (rest = [] \/ exists k, rest = [CDelState k]).
Proof.
  split; [apply deleteFile_trace|].
  intros name v fd w1 w2 w3 -> Hg Hv Hu Hd Hi. subst w1 w2 w3.
  unfold deleteFile, bind, index, ret, GetState, DelState, CreateCompositeKey.
  unfold log in *. simpl in *. rewrite Hg, Hv, Hu, Hd. simpl.
  destruct (createCompositeKey E _ _) as [k|e]; simpl.
  - destruct (del_fault E _ k) as [e|]; [|congruence].
    exists ("Failed to delete state:" +:+ e), [CDelState k]. simpl.
    repeat split.
    + apply lookup_delete_eq.
    + now rewrite <- !app_assoc.
    + right. now exists k.
  - exists e, []. simpl. repeat split.
    + apply lookup_delete_eq.
    + now rewrite <- !app_assoc.
    + now left.
Qed.

Lemma deleteFile_no_rollback_witness :
  exists msg rest,
    fst (deleteFile indexDelRejected ["f1"] stored) = Done (shim_Error msg) /\
    state (snd (deleteFile indexDelRejected ["f1"] stored)) !! "f1" = None /\
    calls (snd (deleteFile indexDelRejected ["f1"] stored)) =
      (calls stored ++ [CGetState "f1"; CDelState "f1";
                        CCreateCompositeKey "Hash~name" ["abc"; "f1"]] ++ rest)%list /\
    (rest = [] \/ exists k, rest = [CDelState k]).
Proof.
  refine (proj2 (deleteFile_no_rollback indexDelRejected ["f1"] stored)
            "f1" recordF1 (mkFileDetails "f1" "abc" "url")
            eq_refl eq_refl _ _ eq_refl _).
  - vm_compute. reflexivity.
  - vm_compute. reflexivity.
  - vm_compute. discriminate.
Defined.

(** ** The query path *)

(** The loop writes the members of the cursor after what the buffer
    holds, then the closing bracket. *)
Lemma writeMembers_all (l : list KV) :
  forall (buffer : string) (written : bool),
    writeMembers (map Ok l) buffer written =
      Ok (buffer +:+ membersFrom written l +:+ "]").
Proof.
  induction l as [|kv l IH]; intros buffer written; [reflexivity|].
  cbn [map writeMembers membersFrom]. rewrite IH. f_equal.
  unfold member. destruct written; rewrite !append_assoc; reflexivity.
Qed.

Lemma constructQueryResponseFromIterator_all (l : list KV) :
  constructQueryResponseFromIterator (map Ok l) =
    Ok ("[" +:+ membersFrom false l +:+ "]").
Proof.
  unfold constructQueryResponseFromIterator. now rewrite writeMembers_all.
Qed.

(** C7.  A cursor that yields nothing is materialised as the two
    characters of an empty array. *)
Theorem empty_cursor_gives_empty_array :
  constructQueryResponseFromIterator [] = Ok "[]" /\ len "[]" = 2.
Proof. split; reflexivity. Qed.

(** C5, as stated, fails: the bytes written for two pairs are not the
    bytes of the claim, which has no space after the comma that follows
    the key. *)
Lemma two_pairs_differ_from_spec_shape :
  constructQueryResponseFromIterator [Ok (mkKV "k1" "1"); Ok (mkKV "k2" "2")] <>
    Ok ("[" +:+ specMember (mkKV "k1" "1") +:+ "," +:+
        specMember (mkKV "k2" "2") +:+ "]").
Proof. vm_compute. discriminate. Qed.

(** C5, amended.  For a cursor that yields [(k1, v1)] then [(k2, v2)]
    without failing, the result is exactly the bytes of the claim with one
    space added after the comma that follows each key: an opening
    bracket, the two members in cursor order with one comma between them
    and none after the last, a closing bracket; in each member the key
    between double quotes and the value as it is. *)
Theorem two_pairs_shape (k1 v1 k2 v2 : string) :
  constructQueryResponseFromIterator [Ok (mkKV k1 v1); Ok (mkKV k2 v2)] =
    Ok ("[" +:+
        "{" +:+ dq +:+ "Key" +:+ dq +:+ ":" +:+ dq +:+ k1 +:+ dq +:+
          ", " +:+ dq +:+ "Record" +:+ dq +:+ ":" +:+ v1 +:+ "}" +:+
        "," +:+
        "{" +:+ dq +:+ "Key" +:+ dq +:+ ":" +:+ dq +:+ k2 +:+ dq +:+
          ", " +:+ dq +:+ "Record" +:+ dq +:+ ":" +:+ v2 +:+ "}" +:+
        "]").
Proof.
  change [Ok (mkKV k1 v1); Ok (mkKV k2 v2)]
    with (map Ok [mkKV k1 v1; mkKV k2 v2]).
  rewrite constructQueryResponseFromIterator_all. f_equal.
  cbn [membersFrom]. unfold member. cbn [Key Value].
  rewrite !append_assoc, ?append_empty_r. reflexivity.
Qed.

(** C4, as stated, fails: with an empty expression, and with a second
    argument, [queryfile] calls the query engine and answers with a
    success. *)
Lemma queryfile_runs_empty_and_extra :
  queryfile noFault [EmptyString] emptyWorld =
    (Done (shim_Success (Some "[]")),
     {| state := ∅; calls := [CGetQueryResult EmptyString; CClose] |}) /\
  queryfile noFault ["q"; "extra"] emptyWorld =
    (Done (shim_Success (Some "[]")),
     {| state := ∅; calls := [CGetQueryResult "q"; CClose] |}).
Proof. split; vm_compute; reflexivity. Qed.

(** C4, amended.  [queryfile] fails with the wrong-number-of-arguments
    error, without a stub call, when the argument list is empty.  With
    one argument or more it passes the first, empty or not, to the query
    engine and ignores the others: the response is the engine's error,
    the cursor's error, or a success with the materialised bytes. *)
Theorem queryfile_argument_check (E : Env) (w : World) :
  queryfile E [] w =
    (Done (shim_Error "Incorrect number of arguments. Expecting 1"), w) /\
  forall (queryString : string) (rest : list string),
    queryfile E (queryString :: rest) w =
      match getQueryResult E w queryString with
      | Err err => (Done (shim_Error err), log (CGetQueryResult queryString) w)
      | Ok resultsIterator =>
          (Done match constructQueryResponseFromIterator resultsIterator with
                | Err err => shim_Error err
                | Ok queryResults => shim_Success (Some queryResults)
                end,
           log CClose (log (CGetQueryResult queryString) w))
      end.
Proof.
  split; [reflexivity|]. intros queryString rest.
  unfold queryfile, getQueryResultForQueryString, bind, index, ret,
    GetQueryResult, Close. simpl.
  destruct (getQueryResult E w queryString) as [it|e]; [|reflexivity].
  now destruct (constructQueryResponseFromIterator it).
Qed.

(** ** Keys and well-formedness *)

Lemma jscan_plain (k : string) :
  forall (name : bool) (stack : list Frame) (rest : string),
    plain k = true ->
    jscan (JString name) stack (k +:+ rest) = jscan (JString name) stack rest.
Proof.
  induction k as [|c k IH]; intros name stack rest Hk; [reflexivity|].
  rewrite append_String. cbn [plain] in Hk.
  apply andb_prop in Hk as [Hk Hk']. apply andb_prop in Hk as [Hk H32].
  apply andb_prop in Hk as [Hdq Hbs].
  apply negb_true_iff in Hdq, Hbs, H32.
  cbn [jscan jstep]. rewrite Hdq, Hbs, H32. now apply IH.
Qed.

(** The bytes up to the first key are fixed; the scan then stands inside
    the string that holds the key. *)
Lemma render_first (key v : string) (l : list KV) :
  "[" +:+ membersFrom false (mkKV key v :: l) +:+ "]" =
  "[{" +:+ dq +:+ "Key" +:+ dq +:+ ":" +:+ dq +:+
    (key +:+ dq +:+ ", " +:+ dq +:+ "Record" +:+ dq +:+ ":" +:+ v +:+ "}" +:+
     membersFrom true l +:+ "]").
Proof.
  cbn [membersFrom]. unfold member. cbn [Key Value].
  rewrite !append_assoc. reflexivity.
Qed.

Lemma scan_to_first_key (rest : string) :
  wellFormedJSONArray ("[{" +:+ dq +:+ "Key" +:+ dq +:+ ":" +:+ dq +:+ rest) =
    jscan (JString false) [InObject; InArray] rest.
Proof. reflexivity. Qed.

(** C9, as stated, fails: a key of two backslashes, and a key that holds
    double quotes, are written as they are and the result is a
    well-formed JSON array all the same. *)
Lemma keys_with_quote_or_backslash_can_be_well_formed :
  let k1 := bs +:+ bs in
  let k2 := "k" +:+ dq +:+ "," +:+ dq +:+ "X" +:+ dq +:+ ":" +:+ dq +:+ "y" in
  contains bs k1 = true /\
  contains dq k2 = true /\
  (exists out, constructQueryResponseFromIterator [Ok (mkKV k1 "{}")] = Ok out /\
               wellFormedJSONArray out = true) /\
  (exists out, constructQueryResponseFromIterator [Ok (mkKV k2 "{}")] = Ok out /\
               wellFormedJSONArray out = true).
Proof.
  repeat split; try reflexivity; eexists; (split; [vm_compute; reflexivity|]);
    vm_compute; reflexivity.
Qed.

(** C9, amended.  For every cursor that does not fail, each key is
    written as it is between two double quotes, with no escaping.
    Consequently, when the first key is made of plain characters followed
    by one double quote, or by one backslash, the result is not a
    well-formed JSON array, whatever the values and the other pairs. *)
Theorem keys_are_written_verbatim (l : list KV) :
  constructQueryResponseFromIterator (map Ok l) =
    Ok ("[" +:+ membersFrom false l +:+ "]") /\
  forall (k v : string) (rest : list KV),
    plain k = true ->
    (l = mkKV (k +:+ dq) v :: rest \/ l = mkKV (k +:+ bs) v :: rest) ->
    exists out,
      constructQueryResponseFromIterator (map Ok l) = Ok out /\
      wellFormedJSONArray out = false.
Proof.
  split; [apply constructQueryResponseFromIterator_all|].
  intros k v rest Hk Hl. eexists.
  split; [apply constructQueryResponseFromIterator_all|].
  destruct Hl as [-> | ->]; rewrite render_first, scan_to_first_key;
    rewrite append_assoc, jscan_plain by assumption; reflexivity.
Qed.

Lemma keys_are_written_verbatim_witness :
  exists out,
    constructQueryResponseFromIterator
      (map Ok [mkKV ("a" +:+ dq) "{}"; mkKV "b" "1"]) = Ok out /\
    wellFormedJSONArray out = false.
Proof.
  refine (proj2 (keys_are_written_verbatim [mkKV ("a" +:+ dq) "{}"; mkKV "b" "1"])
            "a" "{}" [mkKV "b" "1"] eq_refl (or_introl eq_refl)).
Defined.

(** * Further properties of the handlers *)

Lemma error_is_not_success (msg : string) (payload : option string) :
  shim_Error msg <> shim_Success payload.
Proof.
  intros H. apply (f_equal Status) in H. cbn in H.
  unfold shim_ERROR, shim_OK in H. lia.
Qed.

(** ** [initFile], lines 47-67 *)

(** X1.  An argument list that does not hold three strings is refused with the
    message of line 51, which says 4, and the stub is not called. *)
Theorem initFile_wrong_argument_count (E : Env) (args : list string) (w : World) :
  length args <> 3 ->
  initFile E args w =
    (Done (shim_Error "Incorrect number of arguments. Expecting 4"), w).
Proof.
  intros Hn. unfold initFile.
  destruct (length args =? 3)%nat eqn:Hl; [|reflexivity].
  apply Nat.eqb_eq in Hl. contradiction.
Qed.

Lemma initFile_wrong_argument_count_witness :
  initFile noFault ["f1"; "abc"; "url"; "extra"] emptyWorld =
    (Done (shim_Error "Incorrect number of arguments. Expecting 4"), emptyWorld).
Proof.
  apply (initFile_wrong_argument_count noFault ["f1"; "abc"; "url"; "extra"]).
  simpl. lia.
Defined.

(** X2.  Among three arguments the first empty one decides the message, in
    the order of lines 55-63, and the stub is not called. *)
Theorem initFile_empty_argument (E : Env) (w : World)
    (a0 a1 a2 : string) (c0 c1 : ascii) :
  initFile E [EmptyString; a1; a2] w =
    (Done (shim_Error "1st argument must be a non-empty string"), w) /\
  initFile E [String c0 a0; EmptyString; a2] w =
    (Done (shim_Error "2nd argument must be a non-empty string"), w) /\
  initFile E [String c0 a0; String c1 a1; EmptyString] w =
    (Done (shim_Error "3rd argument must be a non-empty string"), w).
Proof. rewrite !initFile_three_arguments. repeat split. Qed.

(** X3.  No argument list makes [initFile] answer with a success, and none
    makes it call the stub: the world it returns is the one it got. *)
Theorem initFile_never_succeeds (E : Env) (args : list string) (w : World)
    (payload : option string) :
  fst (initFile E args w) <> Done (shim_Success payload) /\
  snd (initFile E args w) = w.
Proof.
  split; [|apply initFile_never_writes].
  destruct args as [|a0 [|a1 [|a2 [|a3 rest]]]];
    try (cbn; intros H; inversion H as [H']; revert H';
         apply error_is_not_success).
  rewrite initFile_three_arguments.
  destruct (len a0 <=? 0)%nat;
    [cbn; intros H; inversion H as [H']; revert H'; apply error_is_not_success|].
  destruct (len a1 <=? 0)%nat;
    [cbn; intros H; inversion H as [H']; revert H'; apply error_is_not_success|].
  destruct (len a2 <=? 0)%nat;
    [cbn; intros H; inversion H as [H']; revert H'; apply error_is_not_success|].
  cbn. discriminate.
Qed.

(** ** [initFile], lines 69-102 *)

(** X4.  When the name is free and nothing fails, lines 69-102 write the
    marshalled record under the name and the one-byte sentinel under the
    composite key of index [hash~name] built from the hash and the name,
    in that order, with four stub calls. *)
Theorem initFile_store_writes_record_and_index (E : Env)
    (fileName fileHash fileUrl b k : string) (w : World) :
  let w1 := {| state := state w; calls := calls w ++ [CGetState fileName] |} in
  let w2 := {| state := <[fileName := b]> (state w);
               calls := (calls w ++ [CGetState fileName])
                        ++ [CPutState fileName b] |} in
  let w3 := {| state := state w2;
               calls := calls w2 ++
                 [CCreateCompositeKey "hash~name" [fileHash; fileName]] |} in
  get_fault E w fileName = None ->
  state w !! fileName = None ->
  json_Marshal E (mkFileDetails fileName fileHash fileUrl) = Ok b ->
  put_fault E w1 fileName b = None ->
  createCompositeKey E "hash~name" [fileHash; fileName] = Ok k ->
  put_fault E w3 k nul = None ->
  initFile_store E fileName fileHash fileUrl w =
    (Done (shim_Success None),
     {| state := <[k := nul]> (<[fileName := b]> (state w));
        calls := calls w ++
          [CGetState fileName; CPutState fileName b;
           CCreateCompositeKey "hash~name" [fileHash; fileName];
           CPutState k nul] |}).
Proof.
  intros w1 w2 w3 Hg Hn Hm Hp Hk Hq. subst w1 w2 w3. run_store.
  rewrite Hg, Hn, Hm, Hp. cbn. rewrite Hk. cbn. rewrite Hq.
  now rewrite <- !app_assoc.
Qed.

Lemma initFile_store_writes_record_and_index_witness :
  initFile_store noFault "f1" "abc" "url" emptyWorld =
    (Done (shim_Success None),
     {| state := <[indexKey := nul]> (<["f1" := recordF1]> ∅);
        calls := [CGetState "f1"; CPutState "f1" recordF1;
                  CCreateCompositeKey "hash~name" ["abc"; "f1"];
                  CPutState indexKey nul] |}).
Proof.
  exact (initFile_store_writes_record_and_index noFault "f1" "abc" "url"
           recordF1 indexKey emptyWorld
           eq_refl eq_refl eq_refl eq_refl eq_refl eq_refl).
Defined.



(** X6.  When the primary write went through and the composite key cannot be
    built, lines 69-102 answer with the builder's error and the record
    stays in the ledger: the write is not undone. *)
Theorem initFile_store_keeps_record_when_key_fails (E : Env)
    (fileName fileHash fileUrl b : string) (w : World) (e : error) :
  get_fault E w fileName = None ->
  state w !! fileName = None ->
  json_Marshal E (mkFileDetails fileName fileHash fileUrl) = Ok b ->
  put_fault E (log (CGetState fileName) w) fileName b = None ->
  createCompositeKey E "hash~name" [fileHash; fileName] = Err e ->
  fst (initFile_store E fileName fileHash fileUrl w) = Done (shim_Error e) /\
  state (snd (initFile_store E fileName fileHash fileUrl w)) =
    <[fileName := b]> (state w).
Proof.
  intros Hg Hn Hm Hp Hk. run_store.
  rewrite Hg, Hn, Hm, Hp. cbn. rewrite Hk. now split.
Qed.

Lemma initFile_store_keeps_record_when_key_fails_witness :
  fst (initFile_store noFault "f1" nul "url" emptyWorld) =
    Done (shim_Error "U+0000 in composite key") /\
  state (snd (initFile_store noFault "f1" nul "url" emptyWorld)) =
    <["f1" := "{" +:+ field "FileName" "f1" +:+ "," +:+ field "FileHash" nul +:+
              "," +:+ field "FileUrl" "url" +:+ "}"]> (state emptyWorld).
Proof.
  exact (initFile_store_keeps_record_when_key_fails noFault "f1" nul "url" _
           emptyWorld "U+0000 in composite key"
           eq_refl eq_refl eq_refl eq_refl eq_refl).
Defined.

(** A successful run of lines 69-102 leaves a value under the name. *)
Lemma initFile_store_success_present (E : Env)
    (fileName fileHash fileUrl : string) (w : World) :
  fst (initFile_store E fileName fileHash fileUrl w) = Done (shim_Success None) ->
  is_Some (state (snd (initFile_store E fileName fileHash fileUrl w)) !! fileName).
Proof.
  run_store.
  destruct (get_fault E w fileName);
    [cbn; intros H; inversion H as [H']; now apply error_is_not_success in H'|].
  destruct (state w !! fileName);
    [cbn; intros H; inversion H as [H']; now apply error_is_not_success in H'|].
  destruct (json_Marshal E _) as [b|];
    [|cbn; intros H; inversion H as [H']; now apply error_is_not_success in H'].
  destruct (put_fault E _ fileName b);
    [cbn; intros H; inversion H as [H']; now apply error_is_not_success in H'|].
  cbn. destruct (createCompositeKey E _ _) as [k|];
    [|cbn; intros H; inversion H as [H']; now apply error_is_not_success in H'].
  cbn. intros _. destruct (put_fault E _ k nul); cbn.
  - rewrite lookup_insert_eq. eauto.
  - apply lookup_insert_is_Some'. right. rewrite lookup_insert_eq. eauto.
Qed.

(** X7.  After lines 69-102 have succeeded for a name, running them again for
    that name, with any hash and url, is refused with the already-exists
    error; the ledger is unchanged and the only stub call is the read. *)
Theorem initFile_store_twice (E : Env)
    (fileName fileHash fileUrl fileHash' fileUrl' : string) (w : World) :
  let w1 := snd (initFile_store E fileName fileHash fileUrl w) in
  fst (initFile_store E fileName fileHash fileUrl w) = Done (shim_Success None) ->
  get_fault E w1 fileName = None ->
  initFile_store E fileName fileHash' fileUrl' w1 =
    (Done (shim_Error ("This file is  already exists: " +:+ fileName)),
     {| state := state w1; calls := calls w1 ++ [CGetState fileName] |}).
Proof.
  intros w1 Hs Hg. apply initFile_store_success_present in Hs as [v Hv].
  fold w1 in Hv. unfold initFile_store, bind, GetState, ret.
  now rewrite Hg, Hv.
Qed.

Lemma initFile_store_twice_witness :
  initFile_store noFault "f1" "def" "other" stored =
    (Done (shim_Error ("This file is  already exists: " +:+ "f1")),
     {| state := state stored; calls := calls stored ++ [CGetState "f1"] |}).
Proof.
  exact (initFile_store_twice noFault "f1" "abc" "url" "def" "other" emptyWorld
           eq_refl eq_refl).
Defined.

(** ** [deleteFile] *)

(** X8.  An argument list that does not hold exactly one string is refused
    with the message of line 113 and the stub is not called. *)
Theorem deleteFile_wrong_argument_count (E : Env) (args : list string) (w : World) :
  length args <> 1 ->
  deleteFile E args w =
    (Done (shim_Error "Incorrect number of arguments. Expecting 1"), w).
Proof.
  intros Hn. unfold deleteFile.
  destruct (length args =? 1)%nat eqn:Hl; [|reflexivity].
  apply Nat.eqb_eq in Hl. contradiction.
Qed.

Lemma deleteFile_wrong_argument_count_witness :
  deleteFile noFault [] stored =
    (Done (shim_Error "Incorrect number of arguments. Expecting 1"), stored).
Proof.
  apply (deleteFile_wrong_argument_count noFault [] stored). simpl. lia.
Defined.

(** X9.  When the record is read and decoded and nothing fails, [deleteFile]
    deletes the primary key and then the composite key of index
    [Hash~name] built from the hash and the name held by the stored
    record, not from the argument; all other keys keep their values. *)
Theorem deleteFile_success (E : Env) (name v k : string) (fd : FileDetails)
    (w : World) :
  let w1 := {| state := state w; calls := calls w ++ [CGetState name] |} in
  let w3 := {| state := delete name (state w);
               calls := ((calls w ++ [CGetState name]) ++ [CDelState name]) ++
                 [CCreateCompositeKey "Hash~name" [FileHash fd; FileName fd]] |} in
  get_fault E w name = None ->
  state w !! name = Some v ->
  json_Unmarshal E v = Ok fd ->
  del_fault E w1 name = None ->
  createCompositeKey E "Hash~name" [FileHash fd; FileName fd] = Ok k ->
  del_fault E w3 k = None ->
  deleteFile E [name] w =
    (Done (shim_Success None),
     {| state := delete k (delete name (state w));
        calls := calls w ++
          [CGetState name; CDelState name;
           CCreateCompositeKey "Hash~name" [FileHash fd; FileName fd];
           CDelState k] |}).
Proof.
  intros w1 w3 Hg Hv Hu Hd Hk Hq. subst w1 w3. run_delete.
  rewrite Hg, Hv, Hu, Hd. cbn. rewrite Hk. cbn. rewrite Hq.
  now rewrite <- !app_assoc.
Qed.

Lemma deleteFile_success_witness :
  deleteFile noFault ["f1"] stored =
    (Done (shim_Success None),
     {| state := delete (nul +:+ "Hash~name" +:+ nul +:+ "abc" +:+ nul +:+ "f1" +:+ nul)
                   (delete "f1" (state stored));
        calls := calls stored ++
          [CGetState "f1"; CDelState "f1";
           CCreateCompositeKey "Hash~name" ["abc"; "f1"];
           CDelState (nul +:+ "Hash~name" +:+ nul +:+ "abc" +:+ nul +:+ "f1" +:+ nul)] |}).
Proof.
  exact (deleteFile_success noFault "f1" recordF1 _ (mkFileDetails "f1" "abc" "url")
           stored eq_refl eq_refl eq_refl eq_refl eq_refl eq_refl).
Defined.

Lemma deleteFile_state_subseteq (E : Env) (args : list string) (w : World) :
  state (snd (deleteFile E args w)) ⊆ state w.
Proof.
  unfold deleteFile.
  destruct args as [|name [|? ?]]; cbn [length Nat.eqb negb]; try reflexivity.
  unfold bind, index, ret, GetState, DelState, CreateCompositeKey. cbn.
  destruct (get_fault E w name); [reflexivity|].
  destruct (state w !! name) as [v|]; [|reflexivity].
  destruct (json_Unmarshal E v) as [fd|]; [|reflexivity].
  destruct (del_fault E _ name); cbn; [reflexivity|].
  destruct (createCompositeKey E _ _) as [k|]; cbn; [|apply delete_subseteq].
  destruct (del_fault E _ k); cbn; [apply delete_subseteq|].
  etrans; apply delete_subseteq.
Qed.

Lemma deleteFile_no_put (E : Env) (args : list string) (w : World) :
  exists trace,
    calls (snd (deleteFile E args w)) = (calls w ++ trace)%list /\
    forallb (fun c => negb (isPut c)) trace = true.
Proof.
  unfold deleteFile.
  destruct args as [|name [|? ?]]; cbn [length Nat.eqb negb];
    try (exists []; split; [now rewrite app_nil_r | reflexivity]).
  unfold bind, index, ret, GetState, DelState, CreateCompositeKey. cbn.
  destruct (get_fault E w name); [now exists [CGetState name]|].
  destruct (state w !! name) as [v|]; [|now exists [CGetState name]].
  destruct (json_Unmarshal E v) as [fd|]; [|now exists [CGetState name]].
  destruct (del_fault E _ name); cbn.
  { exists [CGetState name; CDelState name]. now rewrite <- app_assoc. }
  destruct (createCompositeKey E _ _) as [k|]; cbn.
  2:{ eexists [CGetState name; CDelState name; CCreateCompositeKey _ _].
      now rewrite <- !app_assoc. }
  destruct (del_fault E _ k); cbn;
    (eexists [CGetState name; CDelState name; CCreateCompositeKey _ _; CDelState k];
     now rewrite <- !app_assoc).
Qed.

(** X10.  Whatever its arguments and whatever fails, [deleteFile] only
    removes: every key of the ledger it leaves was there before with the
    same value, and none of its stub calls is a [PutState]. *)
Theorem deleteFile_never_adds (E : Env) (args : list string) (w : World) :
  state (snd (deleteFile E args w)) ⊆ state w /\
  exists trace,
    calls (snd (deleteFile E args w)) = (calls w ++ trace)%list /\
    forallb (fun c => negb (isPut c)) trace = true.
Proof. split; [apply deleteFile_state_subseteq | apply deleteFile_no_put]. Qed.

(** X11.  When the read fails or the stored bytes cannot be decoded,
    [deleteFile] answers with an error that names the argument, deletes
    nothing and makes no stub call but the read. *)
Theorem deleteFile_nothing_deleted_without_record (E : Env) (name : string)
    (w : World) :
  (get_fault E w name <> None \/
   (get_fault E w name = None /\
    exists v e, state w !! name = Some v /\ json_Unmarshal E v = Err e)) ->
  exists what,
    deleteFile E [name] w =
      (Done (shim_Error (jsonError what name)),
       {| state := state w; calls := calls w ++ [CGetState name] |}) /\
    (what = "Failed to get state for " \/ what = "Failed to decode JSON of: ").
Proof.
  intros [Hg | (Hg & v & e & Hv & Hu)]; run_delete.
  - destruct (get_fault E w name); [|congruence].
    exists "Failed to get state for ". split; [reflexivity|now left].
  - rewrite Hg, Hv, Hu. exists "Failed to decode JSON of: ".
    split; [reflexivity|now right].
Qed.

Lemma deleteFile_nothing_deleted_without_record_witness :
  exists what,
    deleteFile noFault ["f1"] garbled =
      (Done (shim_Error (jsonError what "f1")),
       {| state := state garbled; calls := calls garbled ++ [CGetState "f1"] |}) /\
    (what = "Failed to get state for " \/ what = "Failed to decode JSON of: ").
Proof.
  apply (deleteFile_nothing_deleted_without_record noFault "f1" garbled).
  right. split; [reflexivity|]. exists "garbage", "invalid character".
  split; reflexivity.
Defined.

(** X12.  When the store rejects the deletion of the primary key, [deleteFile]
    answers with the error of line 135, the ledger is unchanged and the
    index is not addressed: no composite key is built. *)
Theorem deleteFile_primary_delete_rejected (E : Env) (name v : string)
    (fd : FileDetails) (e : error) (w : World) :
  get_fault E w name = None ->
  state w !! name = Some v ->
  json_Unmarshal E v = Ok fd ->
  del_fault E (log (CGetState name) w) name = Some e ->
  deleteFile E [name] w =
    (Done (shim_Error ("Failed to delete state:" +:+ e)),
     {| state := state w; calls := calls w ++ [CGetState name; CDelState name] |}).
Proof.
  intros Hg Hv Hu Hd. run_delete. rewrite Hg, Hv, Hu, Hd. cbn.
  now rewrite <- app_assoc.
Qed.

Lemma deleteFile_primary_delete_rejected_witness :
  deleteFile indexDelRejected [nulName] storedUnderNul =
    (Done (shim_Error ("Failed to delete state:" +:+ "delete rejected")),
     {| state := state storedUnderNul;
        calls := calls storedUnderNul ++ [CGetState nulName; CDelState nulName] |}).
Proof.
  exact (deleteFile_primary_delete_rejected indexDelRejected nulName recordF1
           (mkFileDetails "f1" "abc" "url") "delete rejected" storedUnderNul
           eq_refl eq_refl eq_refl eq_refl).
Defined.

(** A successful [deleteFile] leaves no value under the name. *)
Lemma deleteFile_success_absent (E : Env) (name : string) (w : World) :
  fst (deleteFile E [name] w) = Done (shim_Success None) ->
  state (snd (deleteFile E [name] w)) !! name = None.
Proof.
  run_delete.
  destruct (get_fault E w name);
    [cbn; intros H; inversion H as [H']; now apply error_is_not_success in H'|].
  destruct (state w !! name) as [v|];
    [|cbn; intros H; inversion H as [H']; now apply error_is_not_success in H'].
  destruct (json_Unmarshal E v) as [fd|];
    [|cbn; intros H; inversion H as [H']; now apply error_is_not_success in H'].
  destruct (del_fault E _ name);
    [cbn; intros H; inversion H as [H']; now apply error_is_not_success in H'|].
  cbn. destruct (createCompositeKey E _ _) as [k|];
    [|cbn; intros H; inversion H as [H']; now apply error_is_not_success in H'].
  cbn. destruct (del_fault E _ k);
    [cbn; intros H; inversion H as [H']; now apply error_is_not_success in H'|].
  cbn. intros _. apply lookup_delete_None. right. apply lookup_delete_eq.
Qed.

(** X13.  After a successful [deleteFile] of a name, a second [deleteFile] of
    that name whose read goes through is refused with the does-not-exist
    error and changes nothing. *)
Theorem deleteFile_twice (E : Env) (name : string) (w : World) :
  let w1 := snd (deleteFile E [name] w) in
  fst (deleteFile E [name] w) = Done (shim_Success None) ->
  get_fault E w1 name = None ->
  deleteFile E [name] w1 =
    (Done (shim_Error (jsonError "Marble does not exist: " name)),
     {| state := state w1; calls := calls w1 ++ [CGetState name] |}).
Proof.
  intros w1 Hs Hg. apply deleteFile_success_absent in Hs. fold w1 in Hs.
  unfold deleteFile, bind, index, ret, GetState. cbn.
  now rewrite Hg, Hs.
Qed.

Lemma deleteFile_twice_witness :
  deleteFile noFault ["f1"] (snd (deleteFile noFault ["f1"] stored)) =
    (Done (shim_Error (jsonError "Marble does not exist: " "f1")),
     {| state := state (snd (deleteFile noFault ["f1"] stored));
        calls := calls (snd (deleteFile noFault ["f1"] stored))
                 ++ [CGetState "f1"] |}).
Proof.
  exact (deleteFile_twice noFault "f1" stored eq_refl eq_refl).
Defined.

(** ** The query path *)

Lemma writeMembers_failure (l : list KV) (e : error) (rest : StateQueryIterator) :
  forall (buffer : string) (written : bool),
    writeMembers (map Ok l ++ Err e :: rest)%list buffer written = Err e.
Proof.
  induction l as [|kv l IH]; intros buffer written; [reflexivity|].
  cbn [map app writeMembers]. apply IH.
Qed.

(** X14.  When the cursor fails to advance, after any number of pairs, the
    materialisation returns that error and none of the bytes written so
    far; what the cursor holds after the failure is not read. *)
Theorem cursor_failure_discards_output (l : list KV) (e : error)
    (rest : StateQueryIterator) :
  constructQueryResponseFromIterator (map Ok l ++ Err e :: rest)%list = Err e.
Proof. unfold constructQueryResponseFromIterator. apply writeMembers_failure. Qed.

Lemma member_scan (kv : KV) (stack : list Frame) (rest : string) (first : bool) :
  plain (Key kv) = true ->
  selfDelimited (Value kv) ->
  jscan (if first then JValueOrClose else JValue) stack (member kv +:+ rest) =
    jscan JAfter stack rest.
Proof.
  intros Hk Hv. unfold member. rewrite !append_assoc.
  transitivity (jscan (JString false) (InObject :: stack)
                  (Key kv +:+ dq +:+ ", " +:+ dq +:+ "Record" +:+ dq +:+ ":" +:+
                   Value kv +:+ "}" +:+ rest));
    [now destruct first|].
  rewrite jscan_plain by assumption.
  transitivity (jscan JValue (InObject :: stack) (Value kv +:+ "}" +:+ rest));
    [reflexivity|].
  now rewrite Hv.
Qed.

Lemma members_scan (l : list KV) :
  forall written : bool,
    Forall (fun kv => plain (Key kv) = true /\ selfDelimited (Value kv)) l ->
    jscan (if written then JAfter else JValueOrClose) [InArray]
      (membersFrom written l +:+ "]") = true.
Proof.
  induction l as [|kv l IH]; intros written Hl.
  - now destruct written.
  - apply Forall_cons in Hl as [[Hk Hv] Hl]. cbn [membersFrom].
    destruct written; rewrite !append_assoc.
    + transitivity (jscan JValue [InArray]
                      (member kv +:+ membersFrom true l +:+ "]"));
        [reflexivity|].
      rewrite (member_scan kv [InArray] _ false Hk Hv). now apply (IH true).
    + transitivity (jscan JValueOrClose [InArray]
                      (member kv +:+ membersFrom true l +:+ "]"));
        [reflexivity|].
      rewrite (member_scan kv [InArray] _ true Hk Hv). now apply (IH true).
Qed.

(** X15.  For a cursor that does not fail, whose keys hold no double quote,
    backslash or control character and whose values each read as one
    complete JSON value (line 234 takes the record for a JSON object),
    the materialised bytes are a well-formed JSON array. *)
Theorem plain_keys_give_well_formed_array (l : list KV) :
  Forall (fun kv => plain (Key kv) = true /\ selfDelimited (Value kv)) l ->
  exists out,
    constructQueryResponseFromIterator (map Ok l) = Ok out /\
    wellFormedJSONArray out = true.
Proof.
  intros Hl. eexists. split; [apply constructQueryResponseFromIterator_all|].
  transitivity (jscan JValueOrClose [InArray] (membersFrom false l +:+ "]"));
    [reflexivity|].
  now apply (members_scan l false).
Qed.

Lemma plain_keys_give_well_formed_array_witness :
  exists out,
    constructQueryResponseFromIterator
      (map Ok [mkKV "f1" recordF1; mkKV "f2" "[true, null]"]) = Ok out /\
    wellFormedJSONArray out = true.
Proof.
  apply (plain_keys_give_well_formed_array
           [mkKV "f1" recordF1; mkKV "f2" "[true, null]"]).
  repeat constructor; intros stack rest; reflexivity.
Defined.

Lemma queryfile_state (E : Env) (args : list string) (w : World) :
  state (snd (queryfile E args w)) = state w.
Proof.
  destruct args as [|q rest]; [reflexivity|].
  unfold queryfile, getQueryResultForQueryString, bind, index, ret,
    GetQueryResult, Close. simpl.
  destruct (getQueryResult E w q) as [it|e]; [|reflexivity].
  now destruct (constructQueryResponseFromIterator it).
Qed.

(** X16.  Whatever its arguments and whatever fails, [queryfile] leaves the
    ledger as it is; its stub calls are none, the query alone, or the
    query followed by the release of the cursor. *)
Theorem queryfile_never_changes_ledger (E : Env) (args : list string) (w : World) :
  state (snd (queryfile E args w)) = state w /\
  exists trace,
    calls (snd (queryfile E args w)) = (calls w ++ trace)%list /\
    queryTrace trace.
Proof.
  split; [apply queryfile_state|].
  destruct args as [|q rest].
  { exists []. split; [now rewrite app_nil_r|now left]. }
  unfold queryfile, getQueryResultForQueryString, bind, index, ret,
    GetQueryResult, Close. simpl.
  destruct (getQueryResult E w q) as [it|e].
  - exists [CGetQueryResult q; CClose]. split.
    + destruct (constructQueryResponseFromIterator it); simpl;
        now rewrite <- app_assoc.
    + right. exists q. now right.
  - exists [CGetQueryResult q]. split; [reflexivity|]. right. exists q. now left.
Qed.

(** X17.  When the cursor the engine returned fails to advance, [queryfile]
    answers with the cursor's error and no payload, and the cursor is
    released all the same. *)
Theorem queryfile_cursor_failure (E : Env) (q : string) (others : list string)
    (l : list KV) (e : error) (rest : StateQueryIterator) (w : World) :
  getQueryResult E w q = Ok (map Ok l ++ Err e :: rest)%list ->
  queryfile E (q :: others) w =
    (Done (shim_Error e),
     {| state := state w; calls := calls w ++ [CGetQueryResult q; CClose] |}).
Proof.
  intros Hq.
  unfold queryfile, getQueryResultForQueryString, bind, index, ret,
    GetQueryResult, Close. simpl.
  rewrite Hq. unfold constructQueryResponseFromIterator.
  rewrite writeMembers_failure. unfold log. simpl.
  now rewrite <- app_assoc.
Qed.

Lemma queryfile_cursor_failure_witness :
  queryfile brokenCursor ["q"] emptyWorld =
    (Done (shim_Error "connection lost"),
     {| state := state emptyWorld;
        calls := calls emptyWorld ++ [CGetQueryResult "q"; CClose] |}).
Proof.
  exact (queryfile_cursor_failure brokenCursor "q" [] [mkKV "f1" recordF1]
           "connection lost" [Ok (mkKV "f2" recordF1)] emptyWorld eq_refl).
Defined.

(** X18.  When the engine refuses the query there is no cursor: [queryfile]
    answers with the engine's error and makes no call but the query. *)
Theorem queryfile_engine_failure (E : Env) (q : string) (others : list string)
    (e : error) (w : World) :
  getQueryResult E w q = Err e ->
  queryfile E (q :: others) w =
    (Done (shim_Error e),
     {| state := state w; calls := calls w ++ [CGetQueryResult q] |}).
Proof.
  intros Hq.
  unfold queryfile, getQueryResultForQueryString, bind, index, ret,
    GetQueryResult. simpl.
  now rewrite Hq.
Qed.

Lemma queryfile_engine_failure_witness :
  queryfile noEngine ["q"] emptyWorld =
    (Done (shim_Error "rich query not supported"),
     {| state := state emptyWorld;
        calls := calls emptyWorld ++ [CGetQueryResult "q"] |}).
Proof.
  exact (queryfile_engine_failure noEngine "q" [] "rich query not supported"
           emptyWorld eq_refl).
Defined.



(** ** [Invoke] *)

(** X20.  A function name other than the three of lines 33-37 is answered
    with the unknown-function error and the stub is not called.  The
    names are compared as written: the handlers' Go names [deleteFile]
    and [Init] are not among them. *)
Theorem Invoke_unknown_function (E : Env) (function : string)
    (args : list string) (w : World) :
  function <> "initFile" ->
  function <> "deletefile" ->
  function <> "queryfile" ->
  Invoke E function args w =
    (Done (shim_Error "Received unknown function invocation"), w).
Proof.
  intros H1 H2 H3. unfold Invoke.
  apply String.eqb_neq in H1, H2, H3. now rewrite H1, H2, H3.
Qed.

Lemma Invoke_unknown_function_witness :
  Invoke noFault "deleteFile" ["f1"] stored =
    (Done (shim_Error "Received unknown function invocation"), stored).
Proof.
  apply (Invoke_unknown_function noFault "deleteFile" ["f1"] stored);
    discriminate.
Defined.

(** X21.  Whatever the function name and the arguments, one [Invoke] adds no
    key to the ledger and changes no value: every key it leaves was
    there before with the same value. *)
Theorem Invoke_never_adds (E : Env) (function : string) (args : list string)
    (w : World) :
  state (snd (Invoke E function args w)) ⊆ state w.
Proof.
  unfold Invoke.
  destruct (function =? "initFile")%string;
    [now rewrite initFile_never_writes|].
  destruct (function =? "deletefile")%string;
    [apply deleteFile_state_subseteq|].
  destruct (function =? "queryfile")%string;
    [now rewrite queryfile_state|reflexivity].
Qed.
